(** * random_util.hpp: the SeedSource::Seq seed sequence

    A shallow embedding of [SeedSource::Seq] (flags, constructors, [size],
    [param] and [generate]) together with the properties of its seed
    combination algorithm.

    Conventions.
    - [Flags] and [result_type] are [std::uint_least32_t]; they are modelled
      as [Z] holding a value in [0, 2^32), and a conversion to the type is
      [wrap32].
    - An iterator range [bgnIt, endIt) is the list of the words it holds; a
      function that writes through the range returns the new list.
    - [std::random_device] and the two clocks are external: a [World] gives
      the values they hand out, and every access is logged in a [Trace]. *)

From Stdlib Require Import ZArith Lia List.
From stdpp Require Import base list.
Import ListNotations.

Local Open Scope Z_scope.

(** ** Machine words *)

(** Conversion of an integer to a 32-bit unsigned word. *)
Definition wrap32 (x : Z) : Z := x mod 2 ^ 32.

(** ** The outside world: entropy source, clocks, automatic storage *)

(** What [generate] can observe of its environment.
    - [random_device k]: the native word that the [k]-th draw from a
      [std::random_device] hands out (numbered over the whole run);
    - [system_clock k], [steady_clock k]: the tick count of the time point
      returned by the [k]-th call of the clock's [now()];
    - [indeterminate i]: the word found at index [i] of an array with
      automatic storage that has not been initialised. *)
Record World : Type := mkWorld {
  random_device : nat -> Z;
  system_clock : nat -> Z;
  steady_clock : nat -> Z;
  indeterminate : nat -> Z
}.

(** One access to the environment. *)
Inductive Event : Type :=
| RdOpen                 (* a std::random_device object is constructed *)
| RdDraw (v : Z)         (* dis(rd) is evaluated and yields v *)
| SystemNow (cnt : Z)    (* system_clock::now() *)
| SteadyNow (cnt : Z).   (* steady_clock::now() *)

(** The log of accesses, newest first. *)
Definition Trace : Type := list Event.

Definition is_draw (e : Event) : bool :=
  match e with RdDraw _ => true | _ => false end.
Definition is_system_now (e : Event) : bool :=
  match e with SystemNow _ => true | _ => false end.
Definition is_steady_now (e : Event) : bool :=
  match e with SteadyNow _ => true | _ => false end.
Definition is_clock (e : Event) : bool :=
  match e with SystemNow _ | SteadyNow _ => true | _ => false end.

Fixpoint count (p : Event -> bool) (tr : Trace) : nat :=
  match tr with
  | [] => 0%nat
  | e :: tr' => ((if p e then 1 else 0) + count p tr')%nat
  end.

(** Computations that read the world and extend the trace. *)
Definition M (A : Type) : Type := World -> Trace -> A * Trace.

Definition ret {A : Type} (a : A) : M A := fun _ tr => (a, tr).

Definition bind {A B : Type} (c : M A) (k : A -> M B) : M B :=
  fun w tr => let (a, tr') := c w tr in k a w tr'.

Declare Scope io_scope.
Delimit Scope io_scope with io.
Notation "'do' x <- c ; k" := (bind c (fun x => k))
  (at level 10, x name, c at level 100, k at level 200) : io_scope.
Local Open Scope io_scope.

(** [std::random_device rd;] *)
Definition random_device_ctor : M unit :=
  fun _ tr => (tt, RdOpen :: tr).

(** Modelled from the spec: [std::uniform_int_distribution<result_type>
    dis{0x00000000, 0xffffffff}] of <random>, applied to the device. One
    evaluation [dis(rd)] takes one native word of the device and reduces it
    to exactly 32 bits. *)
Definition dis (native : Z) : Z := wrap32 native.

Definition dis_rd : M Z :=
  fun w tr => let v := dis (random_device w (count is_draw tr)) in
              (v, RdDraw v :: tr).

(** Modelled from the spec: the duration type of the clocks of <chrono>.
    [system_clock::now().time_since_epoch().count()] is a signed 64-bit
    count of nanoseconds since the clock's epoch; [generate] takes the
    count as the clock gives it, without a [duration_cast]. *)
Definition system_clock_now : M Z :=
  fun w tr => let cnt := system_clock w (count is_system_now tr) in
              (cnt, SystemNow cnt :: tr).

(** [steady_clock::now().time_since_epoch().count()], likewise. *)
Definition steady_clock_now : M Z :=
  fun w tr => let cnt := steady_clock w (count is_steady_now tr) in
              (cnt, SteadyNow cnt :: tr).

(** [std::array<result_type,n> arr;] without an initialiser. *)
Definition uninitialised_array (n : nat) : M (list Z) :=
  fun w tr => (map (indeterminate w) (seq 0 n), tr).

(** ** std::seed_seq *)

(** The state of a [std::seed_seq]: the stored seed words. *)
Record seed_seq : Type := mk_seed_seq { v : list Z }.

(** [std::seed_seq()] *)
Definition seed_seq_default : seed_seq := {| v := [] |}.

(** [std::seed_seq(first, last)]: every element is stored modulo 2^32. *)
Definition seed_seq_range (input : list Z) : seed_seq :=
  {| v := map wrap32 input |}.

(** ** SeedSource *)

Module SeedSource.

Definition Flags : Type := Z.
Definition result_type : Type := Z.

Definition kRandomDevice : Flags := 0x00000001.
Definition kSystemClock : Flags := 0x00000002.
Definition kSteadyClock : Flags := 0x00000004.

Definition kAll : Flags :=
  Z.lor (Z.lor kRandomDevice kSystemClock) kSteadyClock.

Record Seq : Type := mkSeq { flags : Flags }.

(** [Seq(Flags flags = kAll)] *)
Definition Seq_of_flags (flags : Flags) : Seq := {| flags := flags |}.
Definition Seq_default : Seq := Seq_of_flags kAll.

(** The loop of [Seq(It it, EndIt endIt)]: [this->flags |= *it]. *)
Fixpoint Seq_range_loop (fl : Flags) (it : list Z) : Flags :=
  match it with
  | [] => fl
  | x :: rest => Seq_range_loop (wrap32 (Z.lor fl x)) rest
  end.

(** [Seq(It it, EndIt endIt)] *)
Definition Seq_of_range (it : list Z) : Seq :=
  {| flags := Seq_range_loop 0x00000000 it |}.

(** A pointer into an array of [T]: the array and a position in it. *)
Record pointer (T : Type) : Type :=
  mk_pointer { ptr_array : list T; ptr_position : nat }.

(** [Seq(std::initializer_list<T> il)]. The constructor delegates with
    braces, [Seq{il.begin(), il.end()}]. A braced list is matched against
    the initializer-list constructors first, and this very template takes
    the two pointers as an [initializer_list] of pointers to [T]: the
    delegation instantiates the same constructor again, at the pointer
    type, and the range constructor is never reached. [depth] is the
    nesting of instantiations that is allowed; [None] stands for a
    construction that does not come about. *)
Fixpoint Seq_of_initializer_list (depth : nat) (T : Type) (il : list T)
  : option Seq :=
  match depth with
  | O => None
  | S depth' =>
      Seq_of_initializer_list depth' (pointer T)
        [mk_pointer T il 0; mk_pointer T il (length il)]
  end.

(** [Seq{x1, ..., xn}] and [Seq seq = {x1, ..., xn}], the construction from
    a braced list of flags. An empty list value-initializes the object
    through the default constructor, which is [Seq(Flags flags = kAll)]; a
    list with elements goes to the initializer-list constructor. *)
Definition Seq_list_init (depth : nat) (il : list Z) : option Seq :=
  match il with
  | [] => Some Seq_default
  | _ :: _ => Seq_of_initializer_list depth Z il
  end.

(** [size()] *)
Definition size (self : Seq) : nat := 1%nat.

(** [param(it)]: [*it = this->flags], the iterator being position [it] of
    the words [out]. *)
Definition param (self : Seq) (out : list Z) (it : nat) : list Z :=
  <[it := flags self]> out.

(** The loop of [randDevGen]: one [dis(rd)] per position, handed to the
    call-back together with the position. The call-back [fn] maps the word
    at the position and the drawn value to the word it leaves there. *)
Fixpoint randDevGen_loop (fn : Z -> result_type -> Z) (range : list Z)
  : M (list Z) :=
  match range with
  | [] => ret []
  | x :: rest =>
      do v <- dis_rd;
      do rest' <- randDevGen_loop fn rest;
      ret (fn x v :: rest')
  end.

Definition randDevGen (fn : Z -> result_type -> Z) (range : list Z)
  : M (list Z) :=
  do rd <- random_device_ctor;
  randDevGen_loop fn range.

(** The two call-backs: [*it = v] and [*it ^= v]. *)
Definition assign_fn (old : Z) (v : result_type) : Z := v.
Definition xor_fn (old : Z) (v : result_type) : Z := Z.lxor old v.

(** [extractTime]: the count of a time point goes to the array as two
    32-bit words, [cnt >> 32] then [cnt], the array iterator moving on by
    two. *)
Definition extractTime (cnt : Z) (arr : list Z) (arrIt : nat)
  : list Z * nat :=
  let arr := <[arrIt := wrap32 (Z.shiftr cnt 32)]> arr in
  let arrIt := S arrIt in
  let arr := <[arrIt := wrap32 cnt]> arr in
  let arrIt := S arrIt in
  (arr, arrIt).

Section Generate.

(** [std::seed_seq::generate] belongs to the standard library:
    [seed_seq_word s n i] is the word that a [seed_seq] holding the seeds
    [s] stores at position [i] of a range of [n] words. *)
Variable seed_seq_word : list Z -> nat -> nat -> Z.

(** [sseq.generate(bgnIt, endIt)] *)
Definition seed_seq_generate (sseq : seed_seq) (range : list Z) : list Z :=
  let n := length range in
  map (seed_seq_word (v sseq) n) (seq 0 n).

(** The temporary array is filled with the selected clock times; the
    result is the array and the array iterator [arrIt]. *)
Definition fill_times (f : Flags) : M (list Z * nat) :=
  do arr <- uninitialised_array 4;
  let arrIt := 0%nat in
  do st <- (if negb (Z.land f kSystemClock =? 0)
            then (do cnt <- system_clock_now; ret (extractTime cnt arr arrIt))
            else ret (arr, arrIt));
  do st <- (if negb (Z.land f kSteadyClock =? 0)
            then (do cnt <- steady_clock_now; ret (extractTime cnt st.1 st.2))
            else ret st);
  ret st.

(** The range is filled by a [std::seed_seq], built over [arr.begin(),
    arrIt) or default-constructed when [arrIt == arr.begin()]. *)
Definition fill_range (arr : list Z) (arrIt : nat) (range : list Z)
  : list Z :=
  if (arrIt =? 0)%nat
  then seed_seq_generate seed_seq_default range
  else seed_seq_generate (seed_seq_range (take arrIt arr)) range.

(** The second pass, run when [f & kRandomDevice]. *)
Definition second_pass (f : Flags) (range : list Z) : M (list Z) :=
  if negb (Z.land f kRandomDevice =? 0)
  then randDevGen xor_fn range
  else ret range.

(** The branch of [generate] for [f != kRandomDevice]. *)
Definition generate_clocks (f : Flags) (range : list Z) : M (list Z) :=
  do st <- fill_times f;
  let range := fill_range st.1 st.2 range in
  second_pass f range.

(** [generate(bgnIt, endIt)] *)
Definition generate (self : Seq) (range : list Z) : M (list Z) :=
  let f := Z.land (flags self) kAll in
  if f =? kRandomDevice
  then randDevGen assign_fn range
  else generate_clocks f range.

End Generate.

End SeedSource.

(** ** MakeMTEngine *)

Section MakeMTEngine.

Variable seed_seq_word : list Z -> nat -> nat -> Z.

(** The Mersenne Twister [MTEngineT] belongs to the standard library; which
    of [std::mt19937] and [std::mt19937_64] it is, is settled when the
    header is compiled. [seed_words] is the length of the range that its
    constructor asks a seed sequence to fill, [MTEngineT_of_words] the
    engine whose state is derived from the words found there. *)
Variable MTEngineT : Type.
Variable seed_words : nat.
Variable MTEngineT_of_words : list Z -> MTEngineT.

(** Modelled from the spec: the constructor [MTEngineT(seq)] of <random>.
    The engine invokes [seq.generate] once, over an array of its own that
    it has not initialised, and fills its state from the words. *)
Definition MTEngineT_ctor (seq : SeedSource.Seq) : M MTEngineT :=
  do a <- uninitialised_array seed_words;
  do a <- SeedSource.generate seed_seq_word seq a;
  ret (MTEngineT_of_words a).

(** [MakeMTEngine(flags)] *)
Definition MakeMTEngine (flags : SeedSource.Flags) : M MTEngineT :=
  let seq := SeedSource.Seq_of_flags flags in
  MTEngineT_ctor seq.

(** [MakeMTEngine()], with the default argument. *)
Definition MakeMTEngine_default : M MTEngineT :=
  MakeMTEngine SeedSource.kAll.

End MakeMTEngine.

(** ** The standard's seed_seq::generate, for running the model

    The algorithm of [rand.util.seedseq] in the C++ standard. The theorems
    below hold for any [seed_seq_word]; this one instantiates them on
    concrete inputs. *)

Module StdSeedSeq.

Definition T (x : Z) : Z := Z.lxor x (Z.shiftr x 27).

Definition rd32 (b : list Z) (i : nat) : Z := nth i b 0.

(** One round of the first phase, for index [k]. *)
Definition round1 (s : list Z) (n p q : nat) (b : list Z) (k : nat)
  : list Z :=
  let kn := (k mod n)%nat in
  let kp := ((k + p) mod n)%nat in
  let kq := ((k + q) mod n)%nat in
  let km := ((k + n - 1) mod n)%nat in
  let r1 := wrap32 (1664525 * T (Z.lxor (Z.lxor (rd32 b kn) (rd32 b kp))
                                        (rd32 b km))) in
  let add :=
    if (k =? 0)%nat then Z.of_nat (length s)
    else if (k <=? length s)%nat
         then Z.of_nat kn + nth (k - 1) s 0
         else Z.of_nat kn in
  let r2 := wrap32 (r1 + add) in
  let b := <[kp := wrap32 (rd32 b kp + r1)]> b in
  let b := <[kq := wrap32 (rd32 b kq + r2)]> b in
  <[kn := r2]> b.

(** One round of the second phase, for index [k]. *)
Definition round2 (n p q : nat) (b : list Z) (k : nat) : list Z :=
  let kn := (k mod n)%nat in
  let kp := ((k + p) mod n)%nat in
  let kq := ((k + q) mod n)%nat in
  let km := ((k + n - 1) mod n)%nat in
  let r3 := wrap32 (1566083941 * T (wrap32 (rd32 b kn + rd32 b kp
                                            + rd32 b km))) in
  let r4 := wrap32 (r3 - Z.of_nat kn) in
  let b := <[kp := Z.lxor (rd32 b kp) r3]> b in
  let b := <[kq := Z.lxor (rd32 b kq) r4]> b in
  <[kn := r4]> b.

(** The [n] words produced from the seeds [s]. *)
Definition generate (s : list Z) (n : nat) : list Z :=
  if (n =? 0)%nat then []
  else
    let b := repeat 0x8b8b8b8b n in
    let t := if (623 <=? n)%nat then 11%nat
             else if (68 <=? n)%nat then 7%nat
             else if (39 <=? n)%nat then 5%nat
             else if (7 <=? n)%nat then 3%nat
             else ((n - 1) / 2)%nat in
    let p := ((n - t) / 2)%nat in
    let q := (p + t)%nat in
    let m := Nat.max (length s + 1) n in
    let b := fold_left (round1 s n p q) (seq 0 m) b in
    fold_left (round2 n p q) (seq m n) b.

Definition word (s : list Z) (n i : nat) : Z := nth i (generate s n) 0.

End StdSeedSeq.

(** A world to run the model in. *)
Definition world0 : World :=
  mkWorld (fun k => 1000 + Z.of_nat k)
          (fun k => 2 ^ 40 + 7 + Z.of_nat k)
          (fun k => 2 ^ 33 + 5 + Z.of_nat k)
          (fun i => 99).

(** A world that differs from [world0] in every word of the entropy source
    only. *)
Definition world1 : World :=
  mkWorld (fun k => 5000 + Z.of_nat k)
          (system_clock world0) (steady_clock world0) (indeterminate world0).

(** A world that differs from [world0] in everything but the system
    clock. *)
Definition world2 : World :=
  mkWorld (fun k => 77) (system_clock world0) (fun k => 123456789)
          (fun i => 5).

(** ** Vocabulary of the statements *)

Import SeedSource.

(** The values of [n] successive draws, the first being draw number [d]. *)
Definition draws (w : World) (d n : nat) : list Z :=
  map (fun k => dis (random_device w k)) (seq d n).

(** High and low half of the 64-bit two's complement image of a count. *)
Definition hi32 (cnt : Z) : Z := (cnt mod 2 ^ 64) / 2 ^ 32.
Definition lo32 (cnt : Z) : Z := (cnt mod 2 ^ 64) mod 2 ^ 32.

(** Whether a flag is set in [f]. *)
Definition selected (f flag : Z) : bool := negb (Z.land f flag =? 0).

(** The readings that a call started at trace [tr] gets from the clocks. *)
Definition system_reading (w : World) (tr : Trace) : Z :=
  system_clock w (count is_system_now tr).
Definition steady_reading (w : World) (tr : Trace) : Z :=
  steady_clock w (count is_steady_now tr).

(** The words of the selected clocks: system clock first, then steady
    clock, each as high half then low half. *)
Definition clock_words (f : Z) (w : World) (tr : Trace) : list Z :=
  (if selected f kSystemClock
   then [hi32 (system_reading w tr); lo32 (system_reading w tr)] else [])
  ++ (if selected f kSteadyClock
      then [hi32 (steady_reading w tr); lo32 (steady_reading w tr)] else []).

(** The clock accesses of the selected clocks, newest first. *)
Definition clock_events (f : Z) (w : World) (tr : Trace) : Trace :=
  (if selected f kSteadyClock then [SteadyNow (steady_reading w tr)] else [])
  ++ (if selected f kSystemClock
      then [SystemNow (system_reading w tr)] else []).

(** The number of clocks selected by [f]. *)
Definition clocks_selected (f : Z) : nat :=
  ((if selected f kSystemClock then 1 else 0)
   + (if selected f kSteadyClock then 1 else 0))%nat.

Definition is_open (e : Event) : bool :=
  match e with RdOpen => true | _ => false end.

(** The accesses that the entropy source sees when [vals] are drawn from
    a freshly constructed device, newest first. *)
Definition device_events (vals : list Z) : Trace :=
  rev (map RdDraw vals) ++ [RdOpen].

(** A word of 32 bits. *)
Definition is_word32 (x : Z) : Prop := 0 <= x < 2 ^ 32.

(** Bitwise-OR of a collection of flags. *)
Definition or_all (il : list Z) : Z := fold_right Z.lor 0 il.

(** ** Auxiliary facts *)

Lemma wrap32_land (x : Z) : wrap32 x = Z.land x (Z.ones 32).
Proof. unfold wrap32. now rewrite Z.land_ones by lia. Qed.

Lemma wrap32_range (x : Z) : 0 <= wrap32 x < 2 ^ 32.
Proof. unfold wrap32. apply Z.mod_pos_bound. lia. Qed.

Lemma wrap32_small (x : Z) : 0 <= x < 2 ^ 32 -> wrap32 x = x.
Proof. intros H. unfold wrap32. now apply Z.mod_small. Qed.

Lemma wrap32_lor (a b : Z) : wrap32 (Z.lor (wrap32 a) b) = wrap32 (Z.lor a b).
Proof.
  rewrite !wrap32_land, !Z.land_lor_distr_l.
  now rewrite <- Z.land_assoc, Z.land_diag.
Qed.

Lemma hi32_shift (cnt : Z) : wrap32 (Z.shiftr cnt 32) = hi32 cnt.
Proof.
  unfold wrap32, hi32. rewrite Z.shiftr_div_pow2 by lia.
  change (2 ^ 64) with (2 ^ 32 * 2 ^ 32).
  rewrite Z.rem_mul_r by lia.
  rewrite (Z.mul_comm (2 ^ 32)), Z.div_add by lia.
  rewrite (Z.div_small (cnt mod 2 ^ 32)); [lia|].
  apply Z.mod_pos_bound. lia.
Qed.

Lemma lo32_wrap (cnt : Z) : wrap32 cnt = lo32 cnt.
Proof.
  unfold wrap32, lo32. change (2 ^ 64) with (2 ^ 32 * 2 ^ 32).
  rewrite Z.rem_mul_r by lia.
  rewrite (Z.mul_comm (2 ^ 32)), Z.mod_add by lia.
  now rewrite Z.mod_mod by lia.
Qed.

Lemma hi32_lo32 (cnt : Z) : hi32 cnt * 2 ^ 32 + lo32 cnt = cnt mod 2 ^ 64.
Proof.
  unfold hi32, lo32.
  pose proof (Z.div_mod (cnt mod 2 ^ 64) (2 ^ 32)). lia.
Qed.

Lemma length_draws (w : World) (d n : nat) : length (draws w d n) = n.
Proof. unfold draws. now rewrite length_map, length_seq. Qed.

Lemma count_app (p : Event -> bool) (t1 t2 : Trace) :
  count p (t1 ++ t2) = (count p t1 + count p t2)%nat.
Proof. induction t1 as [|e t1 IH]; simpl; [reflexivity|]. rewrite IH. lia. Qed.

Lemma count_draw_events (vals : list Z) :
  count is_draw (rev (map RdDraw vals)) = length vals.
Proof.
  induction vals as [|x vals IH]; simpl; [reflexivity|].
  rewrite count_app, IH. simpl. lia.
Qed.

Lemma count_other_draw_events (p : Event -> bool) (vals : list Z) :
  (forall x, p (RdDraw x) = false) ->
  count p (rev (map RdDraw vals)) = 0%nat.
Proof.
  intros Hp. induction vals as [|x vals IH]; simpl; [reflexivity|].
  rewrite count_app, IH. simpl. now rewrite Hp.
Qed.

(** The loop of [randDevGen] draws once per position, in order. *)
Lemma randDevGen_loop_eq (fn : Z -> Z -> Z) (range : list Z)
      (w : World) (tr : Trace) :
  randDevGen_loop fn range w tr =
    (zip_with fn range (draws w (count is_draw tr) (length range)),
     rev (map RdDraw (draws w (count is_draw tr) (length range))) ++ tr).
Proof.
  revert tr. induction range as [|x rest IH]; intros tr; [reflexivity|].
  simpl. unfold bind at 1. unfold dis_rd at 1. unfold bind at 1.
  rewrite IH. unfold ret. simpl.
  unfold draws. simpl. now rewrite <- app_assoc.
Qed.

Lemma randDevGen_eq (fn : Z -> Z -> Z) (range : list Z)
      (w : World) (tr : Trace) :
  randDevGen fn range w tr =
    (zip_with fn range (draws w (count is_draw tr) (length range)),
     rev (map RdDraw (draws w (count is_draw tr) (length range)))
       ++ RdOpen :: tr).
Proof.
  unfold randDevGen, bind, random_device_ctor.
  now rewrite randDevGen_loop_eq.
Qed.

Lemma zip_with_assign (range vals : list Z) :
  length vals = length range -> zip_with assign_fn range vals = vals.
Proof.
  revert vals. induction range as [|x rest IH]; intros [|y vals] Hl;
    simpl in *; try discriminate; [reflexivity|].
  unfold assign_fn at 1. f_equal. apply IH. lia.
Qed.

(** After the clock reads, the array iterator stands behind exactly the
    words written, which are the words of the selected clocks; the rest of
    the array is as it was found. *)
Lemma fill_times_spec (f : Z) (w : World) (tr : Trace) :
  (fill_times f w tr).2 = clock_events f w tr ++ tr
  /\ (fill_times f w tr).1.2 = (2 * clocks_selected f)%nat
  /\ take (fill_times f w tr).1.2 (fill_times f w tr).1.1
     = clock_words f w tr
  /\ drop (fill_times f w tr).1.2 (fill_times f w tr).1.1
     = drop (fill_times f w tr).1.2 (map (indeterminate w) (seq 0 4)).
Proof.
  unfold fill_times, clock_events, clock_words, clocks_selected, selected,
    system_reading, steady_reading.
  destruct (negb (Z.land f kSystemClock =? 0));
    destruct (negb (Z.land f kSteadyClock =? 0));
    cbn; rewrite <- ?hi32_shift, <- ?lo32_wrap; repeat split; reflexivity.
Qed.

Section Properties.

Variable seed_seq_word : list Z -> nat -> nat -> Z.

Local Abbreviation generate := (SeedSource.generate seed_seq_word).
Local Abbreviation seed_seq_generate :=
  (SeedSource.seed_seq_generate seed_seq_word).

Lemma length_seed_seq_generate (sseq : seed_seq) (range : list Z) :
  length (seed_seq_generate sseq range) = length range.
Proof.
  unfold SeedSource.seed_seq_generate. now rewrite length_map, length_seq.
Qed.

(** The range after the seed_seq step is the output of a [seed_seq] over
    the words of the selected clocks. *)
Lemma fill_range_eq (f : Z) (w : World) (tr : Trace) (range : list Z) :
  fill_range seed_seq_word (fill_times f w tr).1.1 (fill_times f w tr).1.2
             range
  = seed_seq_generate (seed_seq_range (clock_words f w tr)) range.
Proof.
  destruct (fill_times_spec f w tr) as (_ & Hit & Htake & _).
  unfold fill_range. rewrite Htake.
  destruct ((fill_times f w tr).1.2 =? 0)%nat eqn:E; [|reflexivity].
  apply Nat.eqb_eq in E. rewrite E in Htake. rewrite take_0 in Htake.
  now rewrite <- Htake.
Qed.

Lemma generate_clocks_eq (f : Z) (range : list Z) (w : World) (tr : Trace) :
  generate_clocks seed_seq_word f range w tr
  = second_pass f
      (seed_seq_generate (seed_seq_range (clock_words f w tr)) range)
      w (clock_events f w tr ++ tr).
Proof.
  unfold generate_clocks, bind.
  pose proof (fill_range_eq f w tr range) as Hr.
  destruct (fill_times_spec f w tr) as (Htr & _).
  destruct (fill_times f w tr) as [[arr arrIt] tr']. simpl in *.
  now rewrite Hr, Htr.
Qed.

Lemma generate_eq_clocks (self : Seq) (range : list Z)
      (w : World) (tr : Trace) :
  Z.land (flags self) kAll <> kRandomDevice ->
  generate self range w tr
  = generate_clocks seed_seq_word (Z.land (flags self) kAll) range w tr.
Proof.
  intros Hf. unfold SeedSource.generate.
  destruct (Z.eqb_spec (Z.land (flags self) kAll) kRandomDevice);
    [contradiction|reflexivity].
Qed.

Lemma second_pass_on (f : Z) (range : list Z) (w : World) (tr : Trace) :
  selected f kRandomDevice = true ->
  second_pass f range w tr = randDevGen xor_fn range w tr.
Proof. unfold second_pass, selected. now intros ->. Qed.

Lemma second_pass_off (f : Z) (range : list Z) (w : World) (tr : Trace) :
  selected f kRandomDevice = false ->
  second_pass f range w tr = (range, tr).
Proof. unfold second_pass, selected. now intros ->. Qed.

(** C1. When the mask restricted to the three defined bits is
    [kRandomDevice] alone, [generate] over a range of N words draws exactly
    N values from the entropy source, each reduced to 32 bits, and the
    output is these values, position by position, unchanged: no seed_seq is
    involved. The device is opened once, before the draws. *)
Theorem C1_random_device_only (self : Seq) (range : list Z)
        (w : World) (tr : Trace) :
  Z.land (flags self) kAll = kRandomDevice ->
  generate self range w tr
  = (draws w (count is_draw tr) (length range),
     rev (map RdDraw (draws w (count is_draw tr) (length range)))
       ++ RdOpen :: tr)
  /\ count is_draw (generate self range w tr).2
     = (count is_draw tr + length range)%nat
  /\ count is_clock (generate self range w tr).2 = count is_clock tr
  /\ length (generate self range w tr).1 = length range
  /\ (forall i : nat, (i < length range)%nat ->
        (generate self range w tr).1 !! i
        = Some (wrap32 (random_device w (count is_draw tr + i)))).
Proof.
  intros Hf.
  assert (generate self range w tr
          = (draws w (count is_draw tr) (length range),
             rev (map RdDraw (draws w (count is_draw tr) (length range)))
               ++ RdOpen :: tr)) as Heq.
  { unfold SeedSource.generate. rewrite Hf, Z.eqb_refl, randDevGen_eq.
    now rewrite zip_with_assign by apply length_draws. }
  rewrite Heq. simpl. repeat split.
  - rewrite count_app, count_draw_events, length_draws. simpl. lia.
  - rewrite count_app, count_other_draw_events by reflexivity. reflexivity.
  - apply length_draws.
  - intros i Hi. unfold draws. rewrite list_lookup_fmap.
    rewrite lookup_seq_lt by exact Hi. reflexivity.
Qed.

Lemma land_kAll_flag (m flag : Z) :
  Z.land kAll flag = flag -> Z.land (Z.land m kAll) flag = Z.land m flag.
Proof. intros H. now rewrite <- Z.land_assoc, H. Qed.

Lemma selected_restrict (m flag : Z) :
  Z.land kAll flag = flag -> selected (Z.land m kAll) flag = selected m flag.
Proof. intros H. unfold selected. now rewrite land_kAll_flag. Qed.

Lemma selected_true (m flag : Z) :
  Z.land m flag <> 0 -> selected m flag = true.
Proof.
  intros H. unfold selected. now destruct (Z.eqb_spec (Z.land m flag) 0).
Qed.

Lemma selected_false (m flag : Z) :
  Z.land m flag = 0 -> selected m flag = false.
Proof. intros H. unfold selected. now rewrite H. Qed.

Lemma lookup_seed_seq_generate (sseq : seed_seq) (range : list Z) (i : nat) :
  (i < length range)%nat ->
  seed_seq_generate sseq range !! i
  = Some (seed_seq_word (v sseq) (length range) i).
Proof.
  intros Hi. unfold SeedSource.seed_seq_generate.
  rewrite list_lookup_fmap, lookup_seq_lt by exact Hi. reflexivity.
Qed.

Lemma lookup_draws (w : World) (d n i : nat) :
  (i < n)%nat -> draws w d n !! i = Some (wrap32 (random_device w (d + i))).
Proof.
  intros Hi. unfold draws.
  rewrite list_lookup_fmap, lookup_seq_lt by exact Hi. reflexivity.
Qed.

Lemma lxor_cancel_l (a x y : Z) : Z.lxor a x = Z.lxor a y -> x = y.
Proof.
  intros H. apply (f_equal (Z.lxor a)) in H.
  now rewrite <- !Z.lxor_assoc, Z.lxor_nilpotent, !Z.lxor_0_l in H.
Qed.

Lemma count_draw_clock_events (f : Z) (w : World) (tr : Trace) :
  count is_draw (clock_events f w tr) = 0%nat.
Proof.
  unfold clock_events.
  destruct (selected f kSteadyClock); destruct (selected f kSystemClock);
    reflexivity.
Qed.

(** The clock branch with the entropy source selected, in closed form. *)
Lemma generate_clocks_xor (self : Seq) (range : list Z)
      (w : World) (tr : Trace) :
  Z.land (flags self) kAll <> kRandomDevice ->
  selected (Z.land (flags self) kAll) kRandomDevice = true ->
  generate self range w tr
  = (zip_with Z.lxor
       (seed_seq_generate
          (seed_seq_range (clock_words (Z.land (flags self) kAll) w tr))
          range)
       (draws w (count is_draw tr) (length range)),
     rev (map RdDraw (draws w (count is_draw tr) (length range)))
       ++ RdOpen :: clock_events (Z.land (flags self) kAll) w tr ++ tr).
Proof.
  intros Hf Hrd.
  rewrite generate_eq_clocks, generate_clocks_eq by exact Hf.
  rewrite second_pass_on, randDevGen_eq by exact Hrd.
  rewrite length_seed_seq_generate.
  now rewrite count_app, count_draw_clock_events.
Qed.

(** C2. When the mask selects the entropy source and at least one clock,
    [generate] first reads the clocks and fills the range by the seed_seq
    over the clock words, and then makes a second pass over all N words:
    one fresh 32-bit draw per word, XOR-ed into the word that is there. So
    word [i] of the output is the mixed word [i] XOR the draw [i], and if
    two runs see the same clock readings but draws that differ at every
    position, their outputs differ at every position. *)
Theorem C2_clock_then_xor_pass (self : Seq) (range : list Z)
        (w w' : World) (tr : Trace) :
  Z.land (flags self) kRandomDevice <> 0 ->
  Z.land (flags self) kSystemClock <> 0
  \/ Z.land (flags self) kSteadyClock <> 0 ->
  generate self range w tr
  = (zip_with Z.lxor
       (seed_seq_generate
          (seed_seq_range (clock_words (Z.land (flags self) kAll) w tr))
          range)
       (draws w (count is_draw tr) (length range)),
     rev (map RdDraw (draws w (count is_draw tr) (length range)))
       ++ RdOpen :: clock_events (Z.land (flags self) kAll) w tr ++ tr)
  /\ clock_events (Z.land (flags self) kAll) w tr <> []
  /\ length (generate self range w tr).1 = length range
  /\ count is_draw (generate self range w tr).2
     = (count is_draw tr + length range)%nat
  /\ (forall i : nat, (i < length range)%nat ->
        (generate self range w tr).1 !! i
        = Some (Z.lxor
                  (seed_seq_word
                     (map wrap32
                        (clock_words (Z.land (flags self) kAll) w tr))
                     (length range) i)
                  (wrap32 (random_device w (count is_draw tr + i)))))
  /\ (system_reading w' tr = system_reading w tr ->
      steady_reading w' tr = steady_reading w tr ->
      (forall i : nat, (i < length range)%nat ->
         wrap32 (random_device w' (count is_draw tr + i))
         <> wrap32 (random_device w (count is_draw tr + i))) ->
      forall i : nat, (i < length range)%nat ->
        (generate self range w' tr).1 !! i
        <> (generate self range w tr).1 !! i).
Proof.
  intros Hrd Hclk.
  set (f := Z.land (flags self) kAll).
  assert (selected f kRandomDevice = true) as Hsel.
  { unfold f. rewrite selected_restrict by reflexivity.
    now apply selected_true. }
  assert (selected f kSystemClock = true \/ selected f kSteadyClock = true)
    as Hsel2.
  { unfold f. rewrite !selected_restrict by reflexivity.
    destruct Hclk; [left|right]; now apply selected_true. }
  assert (f <> kRandomDevice) as Hf.
  { intros E. rewrite E in Hsel2. destruct Hsel2; discriminate. }
  assert (forall w0 i, (i < length range)%nat ->
            (generate self range w0 tr).1 !! i
            = Some (Z.lxor
                      (seed_seq_word (map wrap32 (clock_words f w0 tr))
                                     (length range) i)
                      (wrap32 (random_device w0 (count is_draw tr + i)))))
    as Hword.
  { intros w0 i Hi. rewrite generate_clocks_xor by assumption. simpl.
    rewrite lookup_zip_with.
    rewrite lookup_seed_seq_generate, lookup_draws by exact Hi.
    reflexivity. }
  split; [now apply generate_clocks_xor|].
  rewrite generate_clocks_xor by assumption. simpl.
  split.
  { unfold clock_events.
    destruct Hsel2 as [-> | ->]; [destruct (selected f kSteadyClock)|];
      discriminate. }
  split.
  { rewrite length_zip_with, length_seed_seq_generate, length_draws. lia. }
  split.
  { rewrite count_app, count_draw_events, length_draws. simpl.
    rewrite count_app, count_draw_clock_events. lia. }
  split.
  { intros i Hi. specialize (Hword w i Hi).
    rewrite generate_clocks_xor in Hword by assumption. exact Hword. }
  intros Hsys Hsteady Hdiff i Hi.
  specialize (Hdiff i Hi).
  pose proof (Hword w' i Hi) as H'. pose proof (Hword w i Hi) as H.
  rewrite generate_clocks_xor in H by assumption. simpl in H.
  rewrite H', H.
  assert (clock_words f w' tr = clock_words f w tr) as ->.
  { unfold clock_words. now rewrite Hsys, Hsteady. }
  intros E. injection E as E. apply lxor_cancel_l in E. contradiction.
Qed.

Lemma length_clock_words (f : Z) (w : World) (tr : Trace) :
  length (clock_words f w tr) = (2 * clocks_selected f)%nat.
Proof.
  unfold clock_words, clocks_selected.
  destruct (selected f kSystemClock); destruct (selected f kSteadyClock);
    reflexivity.
Qed.

(** C3. In the clock branch every selected clock is read once and its
    count is split into the high and the low 32-bit half of its 64-bit
    image. The array receives the two words of the system clock first (if
    selected) and then the two words of the steady clock (if selected), 0, 2
    or 4 words in all, and the array iterator stands right behind them. A
    seed_seq over exactly these words fills all N words of the range; the
    optional second pass comes after that. *)
Theorem C3_clock_words_seed_the_range (self : Seq) (range : list Z)
        (w : World) (tr : Trace) :
  Z.land (flags self) kAll <> kRandomDevice ->
  clock_words (Z.land (flags self) kAll) w tr
  = (if selected (Z.land (flags self) kAll) kSystemClock
     then [ (system_reading w tr mod 2 ^ 64) / 2 ^ 32;
            (system_reading w tr mod 2 ^ 64) mod 2 ^ 32 ]
     else [])
    ++ (if selected (Z.land (flags self) kAll) kSteadyClock
        then [ (steady_reading w tr mod 2 ^ 64) / 2 ^ 32;
               (steady_reading w tr mod 2 ^ 64) mod 2 ^ 32 ]
        else [])
  /\ (length (clock_words (Z.land (flags self) kAll) w tr) = 0
      \/ length (clock_words (Z.land (flags self) kAll) w tr) = 2
      \/ length (clock_words (Z.land (flags self) kAll) w tr) = 4)%nat
  /\ (fill_times (Z.land (flags self) kAll) w tr).1.2
     = length (clock_words (Z.land (flags self) kAll) w tr)
  /\ take (fill_times (Z.land (flags self) kAll) w tr).1.2
          (fill_times (Z.land (flags self) kAll) w tr).1.1
     = clock_words (Z.land (flags self) kAll) w tr
  /\ (fill_times (Z.land (flags self) kAll) w tr).2
     = clock_events (Z.land (flags self) kAll) w tr ++ tr
  /\ length (seed_seq_generate
               (seed_seq_range (clock_words (Z.land (flags self) kAll) w tr))
               range)
     = length range
  /\ generate self range w tr
     = second_pass (Z.land (flags self) kAll)
         (seed_seq_generate
            (seed_seq_range (clock_words (Z.land (flags self) kAll) w tr))
            range)
         w (clock_events (Z.land (flags self) kAll) w tr ++ tr).
Proof.
  intros Hf.
  destruct (fill_times_spec (Z.land (flags self) kAll) w tr)
    as (Htr & Hit & Htake & _).
  pose proof (length_clock_words (Z.land (flags self) kAll) w tr) as Hlen.
  repeat split.
  - rewrite Hlen. unfold clocks_selected.
    destruct (selected _ kSystemClock); destruct (selected _ kSteadyClock);
      simpl; auto.
  - now rewrite Hit, Hlen.
  - exact Htake.
  - exact Htr.
  - apply length_seed_seq_generate.
  - now rewrite generate_eq_clocks, generate_clocks_eq.
Qed.

(** C4, as the code has it. Over an empty range [generate] writes nothing
    and draws no value from the entropy source, but there is no test for
    the empty range: every clock selected by the mask is still read once,
    and the device object is still constructed when [kRandomDevice] is
    selected. Only a mask with none of the three bits leaves no trace. *)
Theorem C4_empty_range (self : Seq) (w : World) (tr : Trace) :
  generate self [] w tr
  = ([],
     (if selected (Z.land (flags self) kAll) kRandomDevice
      then [RdOpen] else [])
     ++ clock_events (Z.land (flags self) kAll) w tr ++ tr)
  /\ count is_draw (generate self [] w tr).2 = count is_draw tr
  /\ count is_clock (generate self [] w tr).2
     = (clocks_selected (Z.land (flags self) kAll) + count is_clock tr)%nat.
Proof.
  assert (generate self [] w tr
          = ([],
             (if selected (Z.land (flags self) kAll) kRandomDevice
              then [RdOpen] else [])
             ++ clock_events (Z.land (flags self) kAll) w tr ++ tr)) as Heq.
  { destruct (Z.eq_dec (Z.land (flags self) kAll) kRandomDevice) as [E|E].
    - unfold SeedSource.generate. rewrite E, Z.eqb_refl. reflexivity.
    - rewrite generate_eq_clocks, generate_clocks_eq by exact E.
      unfold second_pass, selected.
      destruct (negb (Z.land (Z.land (flags self) kAll) kRandomDevice =? 0));
        reflexivity. }
  rewrite Heq. simpl. split; [reflexivity|].
  unfold clock_events, clocks_selected.
  destruct (selected _ kRandomDevice); destruct (selected _ kSteadyClock);
    destruct (selected _ kSystemClock); simpl; split; lia.
Qed.

(** C5. With none of the three source bits in the mask, [generate] reads
    neither the entropy source nor a clock, and the output is what a
    default-constructed seed_seq gives for N words. Any two such calls over
    ranges of equal length give the same words, whatever the world, the
    history and the previous contents of the ranges. *)
Theorem C5_no_source_is_deterministic (self self' : Seq)
        (range range' : list Z) (w w' : World) (tr tr' : Trace) :
  Z.land (flags self) kAll = 0 ->
  Z.land (flags self') kAll = 0 ->
  length range = length range' ->
  generate self range w tr
  = (map (seed_seq_word [] (length range)) (seq 0 (length range)), tr)
  /\ generate self range w tr
     = (seed_seq_generate seed_seq_default range, tr)
  /\ (generate self range w tr).1 = (generate self' range' w' tr').1.
Proof.
  assert (forall s r w0 t, Z.land (flags s) kAll = 0 ->
            SeedSource.generate seed_seq_word s r w0 t
            = (map (seed_seq_word [] (length r)) (seq 0 (length r)), t))
    as Hgen.
  { intros s r w0 t Hs.
    rewrite generate_eq_clocks, generate_clocks_eq by (rewrite Hs; discriminate).
    rewrite Hs. reflexivity. }
  intros Hf Hf' Hlen. rewrite !Hgen by assumption.
  repeat split. simpl. now rewrite Hlen.
Qed.

(** C8. [generate] looks at the mask only through [flags & kAll]: a mask
    and its restriction to the three defined bits give the same output and
    the same accesses. *)
Theorem C8_high_bits_ignored (m : Flags) (range : list Z)
        (w : World) (tr : Trace) :
  generate (Seq_of_flags m) range w tr
  = generate (Seq_of_flags (Z.land m kAll)) range w tr.
Proof.
  unfold SeedSource.generate. simpl.
  now rewrite <- (Z.land_assoc m kAll kAll), Z.land_diag.
Qed.

(** C9, as the code has it. A [Seq] built from an empty iterator range
    holds the mask 0, which is not the default [kAll] of the primary
    constructor, and its [generate] gives the output of a
    default-constructed seed_seq without any access to the entropy source
    or a clock. An empty braced list is another matter: it goes to the
    primary constructor and the mask is [kAll]. *)
Theorem C9_empty_range (range : list Z) (w : World) (tr : Trace)
        (depth : nat) :
  flags (Seq_of_range []) = 0
  /\ flags Seq_default = 7
  /\ Seq_of_range [] <> Seq_default
  /\ generate (Seq_of_range []) range w tr
     = (seed_seq_generate seed_seq_default range, tr)
  /\ Seq_list_init depth [] = Some Seq_default.
Proof.
  repeat split; try reflexivity; discriminate.
Qed.

(** [generate] does not depend on what the uninitialised array holds. *)
Lemma generate_indeterminate (self : Seq) (range : list Z)
      (w : World) (tr : Trace) (garbage : nat -> Z) :
  generate self range
    (mkWorld (random_device w) (system_clock w) (steady_clock w) garbage) tr
  = generate self range w tr.
Proof.
  destruct (Z.eq_dec (Z.land (flags self) kAll) kRandomDevice) as [E|E].
  - unfold SeedSource.generate. rewrite E, Z.eqb_refl.
    now rewrite !randDevGen_eq.
  - rewrite !generate_eq_clocks, !generate_clocks_eq by exact E.
    unfold second_pass.
    destruct (negb (Z.land (Z.land (flags self) kAll) kRandomDevice =? 0));
      [|reflexivity].
    now rewrite !randDevGen_eq.
Qed.

(** C10. In the clock branch the array iterator ends two words per
    selected clock into the 4-word array, the words before it are exactly
    the words written from the clocks, and the words from it on are still
    the indeterminate ones. The seed_seq is built over the written prefix
    only, so the result of [generate] is the same whatever the array held
    at first; with no clock selected the default-constructed seed_seq fills
    the range and no word of the array is used. *)
Theorem C10_only_written_words_are_read (self : Seq) (range : list Z)
        (w : World) (tr : Trace) (garbage : nat -> Z) :
  length (fill_times (Z.land (flags self) kAll) w tr).1.1 = 4%nat
  /\ (fill_times (Z.land (flags self) kAll) w tr).1.2
     = (2 * clocks_selected (Z.land (flags self) kAll))%nat
  /\ take (fill_times (Z.land (flags self) kAll) w tr).1.2
          (fill_times (Z.land (flags self) kAll) w tr).1.1
     = clock_words (Z.land (flags self) kAll) w tr
  /\ drop (fill_times (Z.land (flags self) kAll) w tr).1.2
          (fill_times (Z.land (flags self) kAll) w tr).1.1
     = drop (fill_times (Z.land (flags self) kAll) w tr).1.2
            (map (indeterminate w) (seq 0 4))
  /\ fill_range seed_seq_word
       (fill_times (Z.land (flags self) kAll) w tr).1.1
       (fill_times (Z.land (flags self) kAll) w tr).1.2 range
     = seed_seq_generate
         (seed_seq_range
            (take (2 * clocks_selected (Z.land (flags self) kAll))
                  (fill_times (Z.land (flags self) kAll) w tr).1.1))
         range
  /\ generate self range
       (mkWorld (random_device w) (system_clock w) (steady_clock w) garbage)
       tr
     = generate self range w tr
  /\ (Z.land (flags self) kAll <> kRandomDevice ->
      clocks_selected (Z.land (flags self) kAll) = 0%nat ->
      forall arr : list Z,
        fill_range seed_seq_word arr
          (fill_times (Z.land (flags self) kAll) w tr).1.2 range
        = seed_seq_generate seed_seq_default range
        /\ generate self range w tr
           = second_pass (Z.land (flags self) kAll)
               (seed_seq_generate seed_seq_default range) w tr).
Proof.
  destruct (fill_times_spec (Z.land (flags self) kAll) w tr)
    as (Htr & Hit & Htake & Hdrop).
  split.
  { unfold fill_times, selected.
    destruct (negb (Z.land (Z.land (flags self) kAll) kSystemClock =? 0));
      destruct (negb (Z.land (Z.land (flags self) kAll) kSteadyClock =? 0));
      reflexivity. }
  split; [exact Hit|]. split; [exact Htake|]. split; [exact Hdrop|].
  split.
  { rewrite fill_range_eq. now rewrite <- Hit, Htake. }
  split; [apply generate_indeterminate|].
  intros Hf Hnone arr. rewrite Hit, Hnone. split; [reflexivity|].
  rewrite generate_eq_clocks, generate_clocks_eq by exact Hf.
  assert (clock_words (Z.land (flags self) kAll) w tr = []) as ->.
  { apply length_zero_iff_nil. rewrite length_clock_words. lia. }
  assert (clock_events (Z.land (flags self) kAll) w tr = []) as ->.
  { revert Hnone. unfold clocks_selected, clock_events.
    destruct (selected _ kSystemClock); destruct (selected _ kSteadyClock);
      simpl; intros; try reflexivity; lia. }
  reflexivity.
Qed.

End Properties.

Lemma wrap32_lor_small (a b : Z) :
  0 <= a < 2 ^ 32 -> 0 <= b < 2 ^ 32 -> wrap32 (Z.lor a b) = Z.lor a b.
Proof.
  intros Ha Hb. rewrite wrap32_land, Z.land_lor_distr_l, <- !wrap32_land.
  now rewrite !wrap32_small.
Qed.

(** The loop of the range constructor accumulates the OR of the flags. *)
Lemma Seq_range_loop_or (il : list Z) (fl : Z) :
  0 <= fl < 2 ^ 32 -> Forall (fun x => 0 <= x < 2 ^ 32) il ->
  Seq_range_loop fl il = Z.lor fl (or_all il).
Proof.
  revert fl. induction il as [|x il IH]; intros fl Hfl Hil; simpl.
  - now rewrite Z.lor_0_r.
  - inversion Hil as [|? ? Hx Hil']; subst.
    rewrite wrap32_lor_small by assumption.
    rewrite IH; [now rewrite Z.lor_assoc| |assumption].
    rewrite <- (wrap32_lor_small fl x) by assumption. apply wrap32_range.
Qed.

Lemma wrap32_idem (x : Z) : wrap32 (wrap32 x) = wrap32 x.
Proof. apply wrap32_small, wrap32_range. Qed.

(** The same for elements of any integer type: the OR is taken modulo
    2^32, as the conversion to [Flags] does. *)
Lemma Seq_range_loop_wrap (il : list Z) (fl : Z) :
  wrap32 fl = fl -> Seq_range_loop fl il = wrap32 (Z.lor fl (or_all il)).
Proof.
  revert fl. induction il as [|x il IH]; intros fl Hfl; simpl.
  - now rewrite Z.lor_0_r, Hfl.
  - rewrite IH by apply wrap32_idem.
    now rewrite wrap32_lor, Z.lor_assoc.
Qed.

(** C6. The header promises that [Seq seq = {kSystemClock, kSteadyClock}]
    is [Seq(kSystemClock | kSteadyClock)], and the constructor from an
    iterator range does store the bitwise-OR of the elements (converted to
    [Flags]). The initializer-list constructor, however, delegates with
    braces: it is chosen again for the two pointers and never reaches the
    range constructor. No [Seq] comes out of it, nor of a braced list with
    elements, at any depth of instantiation. *)
Theorem C6_braced_flags_construct_nothing (depth : nat) (T : Type)
        (il : list T) (fl : list Z) :
  Seq_of_initializer_list depth T il = None
  /\ Seq_list_init depth [kSystemClock; kSteadyClock] = None
  /\ Seq_of_range [kSystemClock; kSteadyClock]
     = Seq_of_flags (Z.lor kSystemClock kSteadyClock)
  /\ Seq_of_range fl = Seq_of_flags (wrap32 (or_all fl)).
Proof.
  assert (forall d (U : Type) (l : list U),
            Seq_of_initializer_list d U l = None) as Hnone.
  { induction d as [|d IH]; intros U l; simpl; [reflexivity|apply IH]. }
  split; [apply Hnone|]. split; [apply Hnone|]. split; [reflexivity|].
  unfold Seq_of_range, Seq_of_flags.
  rewrite Seq_range_loop_wrap by reflexivity. now rewrite Z.lor_0_l.
Qed.

(** C7. [size()] is 1 for every [Seq], and [param] stores the flags word
    of the [Seq] at the position it is given, leaving the other positions
    alone. The flags word of [Seq(m)] is [m] itself, with any bit outside
    the three defined flags kept. *)
Theorem C7_size_and_param (m : Flags) (self : Seq) (out : list Z)
        (it : nat) :
  SeedSource.size self = 1%nat
  /\ flags (Seq_of_flags m) = m
  /\ length (param self out it) = length out
  /\ ((it < length out)%nat ->
      param self out it !! it = Some (flags self)
      /\ param (Seq_of_flags m) out it !! it = Some m)
  /\ (forall j : nat, j <> it -> param self out it !! j = out !! j).
Proof.
  unfold param. repeat split.
  - apply length_insert.
  - now apply list_lookup_insert_eq.
  - now apply list_lookup_insert_eq.
  - intros j Hj. now apply list_lookup_insert_ne.
Qed.

(** ** The model at work *)

Example seed_seq_reference_vector :
  StdSeedSeq.generate [1; 2; 3; 4; 5] 10
  = [4204997637; 4246533866; 1856049002; 1129615051; 690460811;
     1075771511; 46783058; 3904109078; 1534123438; 1495905678].
Proof. vm_compute. reflexivity. Qed.

Example generate_all_sources :
  generate StdSeedSeq.word Seq_default [0; 0; 0] world0 []
  = ([1972501030; 1419085325; 1154149054],
     [RdDraw 1002; RdDraw 1001; RdDraw 1000; RdOpen;
      SteadyNow 8589934597; SystemNow 1099511627783]).
Proof. vm_compute. reflexivity. Qed.

Lemma C1_witness :
  Z.land (flags (Seq_of_flags 0x9)) kAll = kRandomDevice
  /\ generate StdSeedSeq.word (Seq_of_flags 0x9) [0; 0; 0] world0 []
     = ([1000; 1001; 1002],
        [RdDraw 1002; RdDraw 1001; RdDraw 1000; RdOpen]).
Proof.
  split; [reflexivity|].
  exact (proj1 (C1_random_device_only StdSeedSeq.word (Seq_of_flags 0x9)
                  [0; 0; 0] world0 [] eq_refl)).
Defined.

Lemma C2_witness :
  Z.land (flags (Seq_of_flags 0x3)) kRandomDevice <> 0
  /\ Z.land (flags (Seq_of_flags 0x3)) kSystemClock <> 0
  /\ forall i : nat, (i < 2)%nat ->
       (generate StdSeedSeq.word (Seq_of_flags 0x3) [0; 0] world1 []).1 !! i
       <> (generate StdSeedSeq.word (Seq_of_flags 0x3) [0; 0] world0 []).1
          !! i.
Proof.
  assert (Z.land (flags (Seq_of_flags 0x3)) kRandomDevice <> 0) as Hrd
    by discriminate.
  assert (Z.land (flags (Seq_of_flags 0x3)) kSystemClock <> 0) as Hclk
    by discriminate.
  split; [exact Hrd|]. split; [exact Hclk|].
  apply (C2_clock_then_xor_pass StdSeedSeq.word (Seq_of_flags 0x3) [0; 0]
           world0 world1 [] Hrd (or_introl Hclk)); try reflexivity.
  intros i Hi. destruct i as [|[|i]]; simpl in Hi; [discriminate..|lia].
Defined.

Lemma C3_witness :
  Z.land (flags (Seq_of_flags 0x6)) kAll <> kRandomDevice
  /\ clock_words (Z.land (flags (Seq_of_flags 0x6)) kAll) world0 []
     = [256; 7; 2; 5]
  /\ generate StdSeedSeq.word (Seq_of_flags 0x6) [0; 0; 0] world0 []
     = (StdSeedSeq.generate [256; 7; 2; 5] 3,
        [SteadyNow 8589934597; SystemNow 1099511627783]).
Proof.
  assert (Z.land (flags (Seq_of_flags 0x6)) kAll <> kRandomDevice) as Hf
    by discriminate.
  pose proof (C3_clock_words_seed_the_range StdSeedSeq.word
                (Seq_of_flags 0x6) [0; 0; 0] world0 [] Hf)
    as (Hw & _ & _ & _ & _ & _ & Hg).
  split; [exact Hf|]. split; [exact Hw|].
  rewrite Hg. vm_compute. reflexivity.
Defined.

(** C4 fails as stated: with [kSystemClock] in the mask the system clock
    is read although the range is empty. *)
Lemma C4_counterexample :
  generate StdSeedSeq.word (Seq_of_flags kSystemClock) [] world0 []
  = ([], [SystemNow 1099511627783])
  /\ count is_clock
       (generate StdSeedSeq.word (Seq_of_flags kSystemClock) [] world0 []).2
     = 1%nat
  /\ ~ (forall (self : Seq) (w : World) (tr : Trace),
          (generate StdSeedSeq.word self [] w tr).2 = tr).
Proof.
  split; [reflexivity|]. split; [reflexivity|].
  intros H. specialize (H (Seq_of_flags kSystemClock) world0 []).
  discriminate H.
Qed.

Lemma C5_witness :
  Z.land (flags (Seq_of_flags 0x0)) kAll = 0
  /\ Z.land (flags (Seq_of_flags 0x10)) kAll = 0
  /\ length [1; 2; 3; 4] = length [0; 0; 0; 0]
  /\ (generate StdSeedSeq.word (Seq_of_flags 0x0) [1; 2; 3; 4] world0 []).1
     = (generate StdSeedSeq.word (Seq_of_flags 0x10) [0; 0; 0; 0] world1
          [SystemNow 3; RdDraw 5]).1.
Proof.
  split; [reflexivity|]. split; [reflexivity|]. split; [reflexivity|].
  exact (proj2 (proj2 (C5_no_source_is_deterministic StdSeedSeq.word
                         (Seq_of_flags 0x0) (Seq_of_flags 0x10)
                         [1; 2; 3; 4] [0; 0; 0; 0] world0 world1
                         [] [SystemNow 3; RdDraw 5]
                         eq_refl eq_refl eq_refl))).
Defined.

(** C9 fails as stated for the empty braced list: the mask is [kAll], and
    [generate] draws on all three sources. *)
Lemma C9_counterexample :
  Seq_list_init 1024 [] = Some (Seq_of_flags kAll)
  /\ flags (Seq_of_flags kAll) = 7
  /\ flags (Seq_of_flags kAll) <> 0
  /\ (generate StdSeedSeq.word (Seq_of_flags kAll) [0; 0; 0] world0 []).2
     = [RdDraw 1002; RdDraw 1001; RdDraw 1000; RdOpen;
        SteadyNow 8589934597; SystemNow 1099511627783]
  /\ ~ (forall (depth : nat) (s : Seq),
          Seq_list_init depth [] = Some s -> flags s = 0).
Proof.
  split; [reflexivity|]. split; [reflexivity|]. split; [discriminate|].
  split; [vm_compute; reflexivity|].
  intros H. specialize (H 1024%nat (Seq_of_flags kAll) eq_refl).
  discriminate H.
Qed.

Lemma C7_witness :
  (1 < length [0; 0; 0])%nat
  /\ param (Seq_of_flags 0x107) [0; 0; 0] 1 !! 1%nat = Some 0x107.
Proof.
  assert (1 < length [0; 0; 0])%nat as Hit by (simpl; lia).
  split; [exact Hit|].
  destruct (C7_size_and_param 0x107 (Seq_of_flags 0x107) [0; 0; 0] 1)
    as (_ & _ & _ & Hp & _).
  exact (proj2 (Hp Hit)).
Defined.

Lemma C10_witness :
  Z.land (flags (Seq_of_flags 0x8)) kAll <> kRandomDevice
  /\ clocks_selected (Z.land (flags (Seq_of_flags 0x8)) kAll) = 0%nat
  /\ generate StdSeedSeq.word (Seq_of_flags 0x8) [0; 0; 0; 0] world0 []
     = ([719821457; 1889219533; 3532099774; 3895714911], []).
Proof.
  assert (Z.land (flags (Seq_of_flags 0x8)) kAll <> kRandomDevice) as Hf
    by discriminate.
  split; [exact Hf|]. split; [reflexivity|].
  destruct (C10_only_written_words_are_read StdSeedSeq.word
              (Seq_of_flags 0x8) [0; 0; 0; 0] world0 [] (fun _ => 0))
    as (_ & _ & _ & _ & _ & _ & Hnone).
  destruct (Hnone Hf eq_refl []) as [_ Hg].
  rewrite Hg. vm_compute. reflexivity.
Defined.

(** ** Further properties of the code *)

Lemma wrap32_lxor (a b : Z) :
  wrap32 (Z.lxor a b) = Z.lxor (wrap32 a) (wrap32 b).
Proof.
  rewrite !wrap32_land. apply Z.bits_inj'. intros n Hn.
  rewrite ?Z.land_spec, ?Z.lxor_spec, ?Z.land_spec.
  destruct (Z.testbit a n), (Z.testbit b n), (Z.testbit (Z.ones 32) n);
    reflexivity.
Qed.

Lemma lxor_word32 (a b : Z) :
  is_word32 a -> is_word32 b -> is_word32 (Z.lxor a b).
Proof.
  intros Ha Hb. unfold is_word32 in *.
  rewrite <- (wrap32_small a), <- (wrap32_small b), <- wrap32_lxor
    by assumption.
  apply wrap32_range.
Qed.

Lemma wrap32_word32 (x : Z) : is_word32 (wrap32 x).
Proof. apply wrap32_range. Qed.

(** X1. [extractTime] on an array with room for two words at the iterator:
    the iterator moves on by two, the array keeps its length, the two
    positions hold 32-bit words [hi] and [lo] with
    [hi * 2^32 + lo = cnt mod 2^64] (so a count in [0, 2^64) is recovered
    from them exactly), and no other position changes. *)
Theorem extractTime_two_words (cnt : Z) (arr : list Z) (arrIt : nat) :
  (arrIt + 2 <= length arr)%nat ->
  (extractTime cnt arr arrIt).2 = (arrIt + 2)%nat
  /\ length (extractTime cnt arr arrIt).1 = length arr
  /\ (exists hi lo : Z,
        (extractTime cnt arr arrIt).1 !! arrIt = Some hi
        /\ (extractTime cnt arr arrIt).1 !! S arrIt = Some lo
        /\ is_word32 hi /\ is_word32 lo
        /\ hi * 2 ^ 32 + lo = cnt mod 2 ^ 64
        /\ (0 <= cnt < 2 ^ 64 -> hi * 2 ^ 32 + lo = cnt))
  /\ (forall j : nat, j <> arrIt -> j <> S arrIt ->
        (extractTime cnt arr arrIt).1 !! j = arr !! j).
Proof.
  intros Hroom. unfold extractTime. simpl.
  split; [lia|]. split; [now rewrite !length_insert|]. split.
  - exists (wrap32 (Z.shiftr cnt 32)), (wrap32 cnt).
    split.
    { rewrite list_lookup_insert_ne by lia.
      apply list_lookup_insert_eq. lia. }
    split.
    { apply list_lookup_insert_eq. rewrite length_insert. lia. }
    split; [apply wrap32_word32|]. split; [apply wrap32_word32|].
    rewrite hi32_shift, lo32_wrap, hi32_lo32.
    split; [reflexivity|]. intros Hc. now apply Z.mod_small.
  - intros j Hj1 Hj2. now rewrite !list_lookup_insert_ne by lia.
Qed.

(** X2. [extractTime] loses nothing of a 64-bit count: two counts in
    [-2^63, 2^63) that leave the same two words in the array are the same
    count. *)
Theorem extractTime_injective (c1 c2 : Z) (arr : list Z) (arrIt : nat) :
  (arrIt + 2 <= length arr)%nat ->
  - 2 ^ 63 <= c1 < 2 ^ 63 ->
  - 2 ^ 63 <= c2 < 2 ^ 63 ->
  (extractTime c1 arr arrIt).1 !! arrIt
  = (extractTime c2 arr arrIt).1 !! arrIt ->
  (extractTime c1 arr arrIt).1 !! S arrIt
  = (extractTime c2 arr arrIt).1 !! S arrIt ->
  c1 = c2.
Proof.
  intros Hroom H1 H2 Hhi Hlo. unfold extractTime in Hhi, Hlo. simpl in *.
  rewrite !(list_lookup_insert_ne _ (S arrIt) arrIt) in Hhi by lia.
  rewrite !list_lookup_insert_eq in Hhi by lia.
  rewrite !list_lookup_insert_eq in Hlo by (rewrite length_insert; lia).
  injection Hhi as Hhi. injection Hlo as Hlo.
  rewrite !hi32_shift in Hhi. rewrite !lo32_wrap in Hlo.
  pose proof (hi32_lo32 c1) as E1. pose proof (hi32_lo32 c2) as E2.
  rewrite Hhi, Hlo, E2 in E1.
  assert ((c1 - c2) mod 2 ^ 64 = 0) as Hm.
  { rewrite Zminus_mod, E1, Z.sub_diag. reflexivity. }
  apply Z.mod_divide in Hm; [|lia]. destruct Hm as [k Hk]. lia.
Qed.

Lemma clock_words_restrict (m : Z) (w : World) (tr : Trace) :
  clock_words (Z.land m kAll) w tr = clock_words m w tr.
Proof. unfold clock_words. now rewrite !selected_restrict by reflexivity. Qed.

Lemma clock_events_restrict (m : Z) (w : World) (tr : Trace) :
  clock_events (Z.land m kAll) w tr = clock_events m w tr.
Proof. unfold clock_events. now rewrite !selected_restrict by reflexivity. Qed.

Lemma count_clock_events (p : Event -> bool) (f : Z) (w : World)
      (tr : Trace) :
  count p (clock_events f w tr)
  = ((if selected f kSteadyClock
      then (if p (SteadyNow (steady_reading w tr)) then 1 else 0) else 0)
     + (if selected f kSystemClock
        then (if p (SystemNow (system_reading w tr)) then 1 else 0) else 0))%nat.
Proof.
  unfold clock_events.
  destruct (selected f kSteadyClock); destruct (selected f kSystemClock);
    simpl; lia.
Qed.

Lemma count_device_events (p : Event -> bool) (vals : list Z) :
  (forall x, p (RdDraw x) = false) ->
  count p (device_events vals) = if p RdOpen then 1%nat else 0%nat.
Proof.
  intros Hp. unfold device_events.
  rewrite count_app, count_other_draw_events by exact Hp.
  simpl. lia.
Qed.

Section MoreProperties.

Variable seed_seq_word : list Z -> nat -> nat -> Z.

Local Abbreviation generate := (SeedSource.generate seed_seq_word).
Local Abbreviation seed_seq_generate :=
  (SeedSource.seed_seq_generate seed_seq_word).

(** [generate] in closed form, for every mask. *)
Lemma generate_closed (self : Seq) (range : list Z) (w : World)
      (tr : Trace) :
  generate self range w tr
  = ((if Z.land (flags self) kAll =? kRandomDevice
      then draws w (count is_draw tr) (length range)
      else if selected (flags self) kRandomDevice
           then zip_with Z.lxor
                  (seed_seq_generate
                     (seed_seq_range (clock_words (flags self) w tr)) range)
                  (draws w (count is_draw tr) (length range))
           else seed_seq_generate
                  (seed_seq_range (clock_words (flags self) w tr)) range),
     (if selected (flags self) kRandomDevice
      then device_events (draws w (count is_draw tr) (length range))
      else [])
     ++ clock_events (flags self) w tr ++ tr).
Proof.
  rewrite <- (selected_restrict (flags self) kRandomDevice) by reflexivity.
  rewrite <- clock_words_restrict, <- clock_events_restrict.
  destruct (Z.eqb_spec (Z.land (flags self) kAll) kRandomDevice) as [E|E].
  - unfold SeedSource.generate. rewrite E, Z.eqb_refl, randDevGen_eq.
    rewrite zip_with_assign by apply length_draws.
    unfold device_events. simpl. now rewrite <- app_assoc.
  - rewrite generate_eq_clocks, generate_clocks_eq by exact E.
    destruct (selected (Z.land (flags self) kAll) kRandomDevice) eqn:Hrd.
    + rewrite second_pass_on, randDevGen_eq by exact Hrd.
      rewrite length_seed_seq_generate, count_app, count_draw_clock_events.
      unfold device_events. simpl. now rewrite <- app_assoc.
    + now rewrite second_pass_off by exact Hrd.
Qed.

Lemma seed_seq_generate_length (sseq : seed_seq) (range range' : list Z) :
  length range' = length range ->
  seed_seq_generate sseq range' = seed_seq_generate sseq range.
Proof. intros H. unfold SeedSource.seed_seq_generate. now rewrite H. Qed.

Lemma generate_length_only (self : Seq) (range range' : list Z)
      (w : World) (tr : Trace) :
  length range' = length range ->
  generate self range' w tr = generate self range w tr.
Proof.
  intros Hlen. rewrite !generate_closed, Hlen.
  now rewrite (seed_seq_generate_length _ range range') by exact Hlen.
Qed.

(** X3. For every mask [generate] fills the whole range: the output has
    the length of the range, and it never reads what the range held before,
    so two ranges of the same length get the same words and cause the same
    accesses. *)
Theorem generate_fills_and_overwrites (self : Seq) (range : list Z)
        (w : World) (tr : Trace) :
  length (generate self range w tr).1 = length range
  /\ (forall range' : list Z, length range' = length range ->
        generate self range' w tr = generate self range w tr).
Proof.
  split.
  - rewrite generate_closed. simpl.
    destruct (Z.land (flags self) kAll =? kRandomDevice);
      [apply length_draws|].
    destruct (selected (flags self) kRandomDevice).
    + rewrite length_zip_with, length_seed_seq_generate, length_draws. lia.
    + apply length_seed_seq_generate.
  - intros range' Hlen. now apply generate_length_only.
Qed.

(** X4. What a call of [generate] costs, for every mask and every N: the
    device is opened once and N values are drawn when [kRandomDevice] is in
    the mask, and neither happens otherwise; each of the two clocks is read
    once when its flag is in the mask and not at all otherwise. *)
Theorem generate_access_budget (self : Seq) (range : list Z)
        (w : World) (tr : Trace) :
  count is_draw (generate self range w tr).2
  = (count is_draw tr
     + if selected (flags self) kRandomDevice then length range else 0)%nat
  /\ count is_open (generate self range w tr).2
     = (count is_open tr
        + if selected (flags self) kRandomDevice then 1 else 0)%nat
  /\ count is_system_now (generate self range w tr).2
     = (count is_system_now tr
        + if selected (flags self) kSystemClock then 1 else 0)%nat
  /\ count is_steady_now (generate self range w tr).2
     = (count is_steady_now tr
        + if selected (flags self) kSteadyClock then 1 else 0)%nat.
Proof.
  rewrite generate_closed. simpl.
  rewrite !count_app, !count_clock_events. simpl.
  destruct (selected (flags self) kRandomDevice).
  - rewrite (count_device_events is_open), (count_device_events is_system_now),
      (count_device_events is_steady_now) by reflexivity.
    unfold device_events.
    rewrite count_app, count_draw_events, length_draws. simpl.
    destruct (selected (flags self) kSteadyClock);
      destruct (selected (flags self) kSystemClock); repeat split; lia.
  - simpl.
    destruct (selected (flags self) kSteadyClock);
      destruct (selected (flags self) kSystemClock); repeat split; lia.
Qed.

Lemma draws_ext (w w' : World) (d n : nat) :
  (forall i : nat, (i < n)%nat ->
     wrap32 (random_device w' (d + i)) = wrap32 (random_device w (d + i))) ->
  draws w' d n = draws w d n.
Proof.
  intros H. unfold draws. apply list_eq. intros i.
  rewrite !list_lookup_fmap.
  destruct (decide (i < n)%nat) as [Hi|Hi].
  - rewrite lookup_seq_lt by exact Hi. simpl. unfold dis. now rewrite H.
  - now rewrite lookup_seq_ge by lia.
Qed.

(** X5. Only the selected sources count. If two worlds give the same
    values for the sources in the mask (the N draws when [kRandomDevice] is
    selected, the reading of each selected clock), [generate] returns the
    same words and logs the same accesses in both, however the unselected
    sources and the uninitialised storage differ. *)
Theorem generate_depends_on_selected_sources (self : Seq) (range : list Z)
        (w w' : World) (tr : Trace) :
  (selected (flags self) kRandomDevice = true ->
   forall i : nat, (i < length range)%nat ->
     wrap32 (random_device w' (count is_draw tr + i))
     = wrap32 (random_device w (count is_draw tr + i))) ->
  (selected (flags self) kSystemClock = true ->
   system_reading w' tr = system_reading w tr) ->
  (selected (flags self) kSteadyClock = true ->
   steady_reading w' tr = steady_reading w tr) ->
  generate self range w' tr = generate self range w tr.
Proof.
  intros Hrd Hsys Hsteady. rewrite !generate_closed.
  assert (clock_words (flags self) w' tr = clock_words (flags self) w tr)
    as ->.
  { unfold clock_words.
    destruct (selected (flags self) kSystemClock);
      destruct (selected (flags self) kSteadyClock);
      rewrite ?Hsys, ?Hsteady by reflexivity; reflexivity. }
  assert (clock_events (flags self) w' tr = clock_events (flags self) w tr)
    as ->.
  { unfold clock_events.
    destruct (selected (flags self) kSystemClock);
      destruct (selected (flags self) kSteadyClock);
      rewrite ?Hsys, ?Hsteady by reflexivity; reflexivity. }
  destruct (selected (flags self) kRandomDevice) eqn:Esel.
  - now rewrite (draws_ext w w') by (apply Hrd; reflexivity).
  - destruct (Z.eqb_spec (Z.land (flags self) kAll) kRandomDevice) as [E|E];
      [|reflexivity].
    rewrite <- (selected_restrict (flags self) kRandomDevice) in Esel
      by reflexivity.
    rewrite E in Esel. discriminate.
Qed.

Lemma land_ldiff_flag (m a b : Z) :
  Z.land (Z.ldiff m a) b = Z.land m (Z.land (Z.lnot a) b).
Proof. now rewrite Z.ldiff_land, Z.land_assoc. Qed.

Lemma Forall_draws (w : World) (d n : nat) : Forall is_word32 (draws w d n).
Proof.
  unfold draws. apply Forall_fmap, Forall_forall. intros k _.
  apply wrap32_word32.
Qed.

Lemma zip_with_lxor_zero (l vals : list Z) :
  length vals = length l -> Forall (fun x => x = 0) vals ->
  zip_with Z.lxor l vals = l.
Proof.
  revert vals. induction l as [|x l IH]; intros [|y vals] Hlen Hz;
    simpl in *; try discriminate; [reflexivity|].
  inversion Hz as [|? ? Hy Hz']; subst.
  rewrite Z.lxor_0_r. f_equal. apply IH; [lia|assumption].
Qed.

(** X6. Adding [kRandomDevice] to a mask that selects a clock XORs the N
    draws, word by word, onto what the mask without [kRandomDevice] gives
    for the same clock readings. So if every draw is 0 (an entropy source
    that degenerates to a constant stream of zeros) the output is still the
    clock-derived one. *)
Theorem generate_random_device_hardens (m : Flags) (range : list Z)
        (w : World) (tr : Trace) :
  Z.land m kRandomDevice <> 0 ->
  Z.land m kSystemClock <> 0 \/ Z.land m kSteadyClock <> 0 ->
  (generate (Seq_of_flags m) range w tr).1
  = zip_with Z.lxor
      (generate (Seq_of_flags (Z.ldiff m kRandomDevice)) range w tr).1
      (draws w (count is_draw tr) (length range))
  /\ count is_draw
       (generate (Seq_of_flags (Z.ldiff m kRandomDevice)) range w tr).2
     = count is_draw tr
  /\ ((forall i : nat, (i < length range)%nat ->
         wrap32 (random_device w (count is_draw tr + i)) = 0) ->
      (generate (Seq_of_flags m) range w tr).1
      = (generate (Seq_of_flags (Z.ldiff m kRandomDevice)) range w tr).1).
Proof.
  intros Hrd Hclk.
  set (m0 := Z.ldiff m kRandomDevice).
  assert (selected m kRandomDevice = true) as Hsel
    by now apply selected_true.
  assert (selected m0 kRandomDevice = false) as Hsel0.
  { apply selected_false. unfold m0. rewrite land_ldiff_flag.
    change (Z.land (Z.lnot kRandomDevice) kRandomDevice) with 0.
    apply Z.land_0_r. }
  assert (selected m0 kSystemClock = selected m kSystemClock) as Hsys.
  { unfold selected, m0. rewrite land_ldiff_flag. reflexivity. }
  assert (selected m0 kSteadyClock = selected m kSteadyClock) as Hsteady.
  { unfold selected, m0. rewrite land_ldiff_flag. reflexivity. }
  assert (selected m kSystemClock = true \/ selected m kSteadyClock = true)
    as Hclk'.
  { destruct Hclk; [left|right]; now apply selected_true. }
  assert ((Z.land m kAll =? kRandomDevice) = false) as Hf.
  { apply Z.eqb_neq. intros E.
    rewrite <- !(selected_restrict m) in Hclk' by reflexivity.
    rewrite E in Hclk'. destruct Hclk'; discriminate. }
  assert ((Z.land m0 kAll =? kRandomDevice) = false) as Hf0.
  { apply Z.eqb_neq. intros E.
    rewrite <- (selected_restrict m0) in Hsel0 by reflexivity.
    rewrite E in Hsel0. discriminate. }
  assert (clock_words m0 w tr = clock_words m w tr) as Hcw.
  { unfold clock_words. now rewrite Hsys, Hsteady. }
  rewrite !generate_closed. simpl.
  rewrite Hf, Hf0, Hsel, Hsel0, Hcw. simpl.
  split; [reflexivity|]. split.
  { rewrite count_app, count_draw_clock_events. reflexivity. }
  intros Hzero. apply zip_with_lxor_zero.
  - now rewrite length_draws, length_seed_seq_generate.
  - unfold draws. apply Forall_fmap, Forall_forall. intros k Hk.
    apply list_elem_of_In, in_seq in Hk. simpl. unfold dis.
    replace k with (count is_draw tr + (k - count is_draw tr))%nat by lia.
    apply Hzero. lia.
Qed.

(** X7. If the words that a seed_seq produces are 32-bit words (as the
    standard requires of [std::seed_seq]), every word that [generate]
    leaves in the range is a 32-bit word, for every mask. *)
Theorem generate_words_are_32_bit (self : Seq) (range : list Z)
        (w : World) (tr : Trace) :
  (forall (s : list Z) (n i : nat), is_word32 (seed_seq_word s n i)) ->
  Forall is_word32 (generate self range w tr).1.
Proof.
  intros Hssw.
  assert (forall sseq, Forall is_word32 (seed_seq_generate sseq range))
    as Hmixed.
  { intros sseq. unfold SeedSource.seed_seq_generate.
    apply Forall_fmap, Forall_forall. intros k _. apply Hssw. }
  rewrite generate_closed. simpl.
  destruct (Z.land (flags self) kAll =? kRandomDevice);
    [apply Forall_draws|].
  destruct (selected (flags self) kRandomDevice); [|apply Hmixed].
  apply Forall_lookup. intros i x Hx.
  rewrite lookup_zip_with in Hx.
  destruct (seed_seq_generate _ range !! i) as [a|] eqn:Ea;
    [|discriminate].
  destruct (draws w (count is_draw tr) (length range) !! i) as [b|] eqn:Eb;
    [|discriminate].
  simpl in Hx. injection Hx as <-.
  apply lxor_word32.
  - eapply Forall_lookup_1; [apply Hmixed|exact Ea].
  - eapply Forall_lookup_1; [apply Forall_draws|exact Eb].
Qed.

End MoreProperties.

(** X8. [randDevGen] with any call-back: the device is opened once, before
    the first draw, one value is drawn per position in the order of the
    range, and position [i] ends with what the call-back makes of the word
    that was there and the [i]-th draw. The range keeps its length. *)
Theorem randDevGen_calls_back_in_order (fn : Z -> Z -> Z) (range : list Z)
        (w : World) (tr : Trace) :
  (randDevGen fn range w tr).2
  = device_events (draws w (count is_draw tr) (length range)) ++ tr
  /\ length (randDevGen fn range w tr).1 = length range
  /\ (forall (i : nat) (x : Z), range !! i = Some x ->
        (randDevGen fn range w tr).1 !! i
        = Some (fn x (wrap32 (random_device w (count is_draw tr + i))))).
Proof.
  rewrite randDevGen_eq. simpl. split.
  { unfold device_events. now rewrite <- app_assoc. }
  split.
  { rewrite length_zip_with, length_draws. lia. }
  intros i x Hx. rewrite lookup_zip_with, Hx. simpl.
  rewrite lookup_draws by (eapply lookup_lt_Some; exact Hx). reflexivity.
Qed.

Lemma flags_Seq_of_range (il : list Z) :
  flags (Seq_of_range il) = wrap32 (or_all il).
Proof.
  unfold Seq_of_range. simpl.
  rewrite Seq_range_loop_wrap by reflexivity. now rewrite Z.lor_0_l.
Qed.

Lemma wrap32_lor_distr (a b : Z) :
  wrap32 (Z.lor a b) = Z.lor (wrap32 a) (wrap32 b).
Proof. now rewrite !wrap32_land, Z.land_lor_distr_l. Qed.

Lemma or_all_app (l1 l2 : list Z) :
  or_all (l1 ++ l2) = Z.lor (or_all l1) (or_all l2).
Proof.
  induction l1 as [|x l1 IH]; simpl; [reflexivity|].
  now rewrite IH, Z.lor_assoc.
Qed.

Lemma or_all_Permutation (l1 l2 : list Z) :
  Permutation l1 l2 -> or_all l1 = or_all l2.
Proof.
  induction 1 as [|x l l' _ IH|x y l|l l' l'' _ IH1 _ IH2]; simpl.
  - reflexivity.
  - now rewrite IH.
  - now rewrite !Z.lor_assoc, (Z.lor_comm y x).
  - now rewrite IH1.
Qed.

Lemma Seq_eq (s1 s2 : Seq) : flags s1 = flags s2 -> s1 = s2.
Proof. destruct s1, s2. simpl. now intros ->. Qed.

(** X9. The constructor from a collection of flags, for elements of any
    integer type: the stored mask is always a 32-bit word; the mask of a
    concatenation is the OR of the masks of the parts; neither the order of
    the elements nor a repetition of them changes the [Seq]. *)
Theorem Seq_of_range_algebra (l1 l2 : list Z) :
  is_word32 (flags (Seq_of_range l1))
  /\ flags (Seq_of_range (l1 ++ l2))
     = Z.lor (flags (Seq_of_range l1)) (flags (Seq_of_range l2))
  /\ (Permutation l1 l2 -> Seq_of_range l1 = Seq_of_range l2)
  /\ Seq_of_range (l1 ++ l1) = Seq_of_range l1.
Proof.
  split; [rewrite flags_Seq_of_range; apply wrap32_word32|].
  split.
  { now rewrite !flags_Seq_of_range, or_all_app, wrap32_lor_distr. }
  split.
  { intros Hp. apply Seq_eq. rewrite !flags_Seq_of_range.
    now rewrite (or_all_Permutation l1 l2). }
  apply Seq_eq. rewrite !flags_Seq_of_range, or_all_app.
  now rewrite Z.lor_diag.
Qed.

(** X10. [param] and the range constructor are inverse to each other, as
    the SeedSequence requirements ask: the [size()] words that [param]
    writes, handed to [Seq(It, EndIt)], give back a [Seq] equal to the
    original one, whatever 32-bit mask it holds. *)
Theorem param_then_range_constructor (self : Seq) (out : list Z) :
  (SeedSource.size self <= length out)%nat ->
  is_word32 (flags self) ->
  take (SeedSource.size self) (param self out 0) = [flags self]
  /\ Seq_of_range (take (SeedSource.size self) (param self out 0)) = self.
Proof.
  intros Hlen Hw. unfold SeedSource.size, param in *.
  destruct out as [|x out]; [simpl in Hlen; lia|]. simpl.
  split; [reflexivity|].
  apply Seq_eq. rewrite flags_Seq_of_range. simpl.
  rewrite Z.lor_0_r. now apply wrap32_small.
Qed.

Section MakeMTEngineProperties.

Variable seed_seq_word : list Z -> nat -> nat -> Z.
Variable MTEngineT : Type.
Variable seed_words : nat.
Variable MTEngineT_of_words : list Z -> MTEngineT.

Local Abbreviation generate := (SeedSource.generate seed_seq_word).
Local Abbreviation make_engine :=
  (MakeMTEngine seed_seq_word MTEngineT seed_words MTEngineT_of_words).

Lemma MakeMTEngine_eq (m : Flags) (range : list Z) (w : World)
      (tr : Trace) :
  length range = seed_words ->
  make_engine m w tr
  = (MTEngineT_of_words (generate (Seq_of_flags m) range w tr).1,
     (generate (Seq_of_flags m) range w tr).2).
Proof.
  intros Hlen. unfold MakeMTEngine, MTEngineT_ctor, bind, ret,
    uninitialised_array.
  rewrite (generate_length_only seed_seq_word (Seq_of_flags m) range
             (map (indeterminate w) (seq 0 seed_words)))
    by now rewrite length_map, length_seq.
  now destruct (generate (Seq_of_flags m) range w tr).
Qed.

(** X11. [MakeMTEngine(m)] seeds the engine by one call of [generate] of
    [Seq(m)] over the engine's [seed_words] words: the engine is built from
    exactly the words that [generate] gives for a range of that length, the
    accesses are those of that call, and what the engine's array held
    before does not matter. Bits of [m] outside [kAll] change nothing. *)
Theorem MakeMTEngine_seeds_by_generate (m : Flags) (range : list Z)
        (w : World) (tr : Trace) (garbage : nat -> Z) :
  length range = seed_words ->
  make_engine m w tr
  = (MTEngineT_of_words (generate (Seq_of_flags m) range w tr).1,
     (generate (Seq_of_flags m) range w tr).2)
  /\ make_engine m
       (mkWorld (random_device w) (system_clock w) (steady_clock w) garbage)
       tr
     = make_engine m w tr
  /\ make_engine (Z.land m kAll) w tr = make_engine m w tr
  /\ count is_draw (make_engine m w tr).2
     = (count is_draw tr
        + if selected m kRandomDevice then seed_words else 0)%nat
  /\ count is_clock (make_engine m w tr).2
     = (count is_clock tr + clocks_selected m)%nat.
Proof.
  intros Hlen. split; [now apply MakeMTEngine_eq|].
  split.
  { rewrite !(MakeMTEngine_eq m range) by exact Hlen.
    now rewrite generate_indeterminate. }
  split.
  { rewrite !(MakeMTEngine_eq _ range) by exact Hlen.
    unfold SeedSource.generate. simpl.
    now rewrite <- (Z.land_assoc m kAll kAll), Z.land_diag. }
  rewrite (MakeMTEngine_eq m range) by exact Hlen. simpl.
  rewrite generate_closed. simpl.
  rewrite !count_app, !count_clock_events, Hlen. simpl.
  unfold clocks_selected.
  destruct (selected m kRandomDevice).
  - rewrite (count_device_events is_clock) by reflexivity.
    unfold device_events.
    rewrite count_app, count_draw_events, length_draws. simpl.
    destruct (selected m kSteadyClock); destruct (selected m kSystemClock);
      split; lia.
  - simpl.
    destruct (selected m kSteadyClock); destruct (selected m kSystemClock);
      split; lia.
Qed.

(** X12. With none of the three source bits in the mask, [MakeMTEngine]
    gives the same engine on every call, in every world and after any
    history, and makes no access to the entropy source or a clock: the
    engine built from a default-constructed seed_seq's words. *)
Theorem MakeMTEngine_without_source_is_fixed (m : Flags)
        (w w' : World) (tr tr' : Trace) :
  Z.land m kAll = 0 ->
  make_engine m w tr
  = (MTEngineT_of_words
       (map (seed_seq_word [] seed_words) (seq 0 seed_words)), tr)
  /\ (make_engine m w tr).1 = (make_engine m w' tr').1.
Proof.
  intros Hm.
  assert (forall w0 t, make_engine m w0 t
            = (MTEngineT_of_words
                 (map (seed_seq_word [] seed_words) (seq 0 seed_words)), t))
    as Heq.
  { intros w0 t.
    rewrite (MakeMTEngine_eq m (repeat 0 seed_words))
      by apply repeat_length.
    assert (forall flag, Z.land kAll flag = flag -> selected m flag = false)
      as Hsel.
    { intros flag Hflag. rewrite <- selected_restrict by exact Hflag.
      now rewrite Hm. }
    rewrite generate_closed. simpl. rewrite Hm. simpl.
    unfold clock_words, clock_events.
    rewrite !Hsel by reflexivity. simpl.
    unfold SeedSource.seed_seq_generate. simpl.
    now rewrite repeat_length. }
  now rewrite !Heq.
Qed.

End MakeMTEngineProperties.

(** The words of the standard's seed_seq are 32-bit words. *)
Lemma nth_word32 (b : list Z) (i : nat) :
  Forall is_word32 b -> is_word32 (nth i b 0).
Proof.
  intros Hb. destruct (Nat.lt_ge_cases i (length b)) as [Hi|Hi].
  - now apply Forall_nth.
  - rewrite nth_overflow by exact Hi. unfold is_word32. lia.
Qed.

Lemma fold_left_invariant {A B : Type} (P : A -> Prop) (f : A -> B -> A)
      (l : list B) (a : A) :
  (forall x y, P x -> P (f x y)) -> P a -> P (fold_left f l a).
Proof.
  intros Hf. revert a. induction l as [|y l IH]; intros a Ha; simpl;
    [exact Ha|]. apply IH, Hf, Ha.
Qed.

Lemma StdSeedSeq_generate_word32 (s : list Z) (n : nat) :
  Forall is_word32 (StdSeedSeq.generate s n).
Proof.
  unfold StdSeedSeq.generate. destruct (n =? 0)%nat; [constructor|].
  apply fold_left_invariant.
  { intros b k Hb. unfold StdSeedSeq.round2.
    repeat apply Forall_insert; try assumption;
      try apply wrap32_word32;
      apply lxor_word32; try apply wrap32_word32;
      unfold StdSeedSeq.rd32; apply nth_word32;
      repeat apply Forall_insert; try assumption;
      try apply wrap32_word32;
      apply lxor_word32; try apply wrap32_word32;
      apply nth_word32; assumption. }
  apply fold_left_invariant.
  { intros b k Hb. unfold StdSeedSeq.round1.
    repeat apply Forall_insert; try assumption; apply wrap32_word32. }
  apply Forall_forall. intros x Hx. apply list_elem_of_In in Hx.
  apply repeat_spec in Hx. subst. unfold is_word32. lia.
Qed.

Lemma StdSeedSeq_word32 (s : list Z) (n i : nat) :
  is_word32 (StdSeedSeq.word s n i).
Proof. apply nth_word32, StdSeedSeq_generate_word32. Qed.

Lemma int64_words_inj (a b : Z) :
  - 2 ^ 63 <= a < 2 ^ 63 -> - 2 ^ 63 <= b < 2 ^ 63 ->
  hi32 a = hi32 b -> lo32 a = lo32 b -> a = b.
Proof.
  intros Ha Hb Hhi Hlo.
  pose proof (hi32_lo32 a) as Ea. pose proof (hi32_lo32 b) as Eb.
  rewrite Hhi, Hlo, Eb in Ea.
  assert ((a - b) mod 2 ^ 64 = 0) as Hm.
  { rewrite Zminus_mod, Ea, Z.sub_diag. reflexivity. }
  apply Z.mod_divide in Hm; [|lia]. destruct Hm as [k Hk]. lia.
Qed.

(** X13. The words that the clock branch hands to the seed_seq keep the
    clock readings: if two runs with 64-bit readings end with the same
    words before the array iterator, then every selected clock gave the
    same reading in both. Different times thus give different seeds. *)
Theorem fill_times_keeps_the_readings (f : Z) (w w' : World) (tr : Trace) :
  - 2 ^ 63 <= system_reading w tr < 2 ^ 63 ->
  - 2 ^ 63 <= system_reading w' tr < 2 ^ 63 ->
  - 2 ^ 63 <= steady_reading w tr < 2 ^ 63 ->
  - 2 ^ 63 <= steady_reading w' tr < 2 ^ 63 ->
  take (fill_times f w tr).1.2 (fill_times f w tr).1.1
  = take (fill_times f w' tr).1.2 (fill_times f w' tr).1.1 ->
  (selected f kSystemClock = true ->
   system_reading w tr = system_reading w' tr)
  /\ (selected f kSteadyClock = true ->
      steady_reading w tr = steady_reading w' tr).
Proof.
  intros Hs Hs' Ht Ht' Heq.
  destruct (fill_times_spec f w tr) as (_ & _ & -> & _) in Heq.
  destruct (fill_times_spec f w' tr) as (_ & _ & -> & _) in Heq.
  unfold clock_words in Heq.
  destruct (selected f kSystemClock); destruct (selected f kSteadyClock);
    simpl in Heq; split; intros Hsel; try discriminate Hsel;
    injection Heq; intros; now apply int64_words_inj.
Qed.

(** ** The further properties at work *)

Lemma extractTime_two_words_witness :
  (2 + 2 <= length [9; 9; 9; 9])%nat
  /\ (extractTime (2 ^ 40 + 7) [9; 9; 9; 9] 2).2 = 4%nat
  /\ (extractTime (2 ^ 40 + 7) [9; 9; 9; 9] 2).1 = [9; 9; 256; 7].
Proof.
  assert (2 + 2 <= length [9; 9; 9; 9])%nat as Hroom by (simpl; lia).
  split; [exact Hroom|].
  split; [|reflexivity].
  exact (proj1 (extractTime_two_words (2 ^ 40 + 7) [9; 9; 9; 9] 2 Hroom)).
Defined.

Lemma extractTime_injective_witness :
  (0 + 2 <= length [9; 9; 9; 9])%nat
  /\ (extractTime (-1) [9; 9; 9; 9] 0).1 = [4294967295; 4294967295; 9; 9]
  /\ -1 = -1.
Proof.
  assert (0 + 2 <= length [9; 9; 9; 9])%nat as Hroom by (simpl; lia).
  split; [exact Hroom|]. split; [reflexivity|].
  apply (extractTime_injective (-1) (-1) [9; 9; 9; 9] 0 Hroom);
    (lia || reflexivity).
Defined.

Lemma generate_fills_and_overwrites_witness :
  length [9; 8; 7] = length [0; 0; 0]
  /\ generate StdSeedSeq.word Seq_default [9; 8; 7] world0 []
     = generate StdSeedSeq.word Seq_default [0; 0; 0] world0 [].
Proof.
  split; [reflexivity|].
  exact (proj2 (generate_fills_and_overwrites StdSeedSeq.word Seq_default
                  [0; 0; 0] world0 []) [9; 8; 7] eq_refl).
Defined.

Lemma generate_depends_on_selected_sources_witness :
  system_reading world2 [] = system_reading world0 []
  /\ generate StdSeedSeq.word (Seq_of_flags kSystemClock) [0; 0] world2 []
     = generate StdSeedSeq.word (Seq_of_flags kSystemClock) [0; 0] world0 [].
Proof.
  split; [reflexivity|].
  apply (generate_depends_on_selected_sources StdSeedSeq.word
           (Seq_of_flags kSystemClock) [0; 0] world0 world2 []).
  - intros H. discriminate H.
  - intros _. reflexivity.
  - intros H. discriminate H.
Defined.

Lemma generate_random_device_hardens_witness :
  Z.land kAll kRandomDevice <> 0
  /\ Z.land kAll kSystemClock <> 0
  /\ (generate StdSeedSeq.word (Seq_of_flags kAll) [0; 0; 0] world0 []).1
     = zip_with Z.lxor
         (generate StdSeedSeq.word (Seq_of_flags 0x6) [0; 0; 0] world0 []).1
         [1000; 1001; 1002].
Proof.
  assert (Z.land kAll kRandomDevice <> 0) as Hrd by discriminate.
  assert (Z.land kAll kSystemClock <> 0) as Hclk by discriminate.
  split; [exact Hrd|]. split; [exact Hclk|].
  exact (proj1 (generate_random_device_hardens StdSeedSeq.word kAll
                  [0; 0; 0] world0 [] Hrd (or_introl Hclk))).
Defined.

Lemma generate_words_are_32_bit_witness :
  (forall (s : list Z) (n i : nat), is_word32 (StdSeedSeq.word s n i))
  /\ Forall is_word32
       (generate StdSeedSeq.word Seq_default [0; 0; 0] world0 []).1.
Proof.
  split; [exact StdSeedSeq_word32|].
  exact (generate_words_are_32_bit StdSeedSeq.word Seq_default [0; 0; 0]
           world0 [] StdSeedSeq_word32).
Defined.

Lemma randDevGen_calls_back_in_order_witness :
  [12; 10] !! 1%nat = Some 10
  /\ (randDevGen xor_fn [12; 10] world0 []).1 !! 1%nat
     = Some (Z.lxor 10 1001).
Proof.
  split; [reflexivity|].
  exact (proj2 (proj2 (randDevGen_calls_back_in_order xor_fn [12; 10]
                         world0 [])) 1%nat 10 eq_refl).
Defined.

Lemma Seq_of_range_algebra_witness :
  Permutation [kSteadyClock; kRandomDevice] [kRandomDevice; kSteadyClock]
  /\ Seq_of_range [kSteadyClock; kRandomDevice]
     = Seq_of_range [kRandomDevice; kSteadyClock].
Proof.
  assert (Permutation [kSteadyClock; kRandomDevice]
                      [kRandomDevice; kSteadyClock]) as Hp
    by apply perm_swap.
  split; [exact Hp|].
  exact (proj1 (proj2 (proj2 (Seq_of_range_algebra
                                [kSteadyClock; kRandomDevice]
                                [kRandomDevice; kSteadyClock]))) Hp).
Defined.

Lemma param_then_range_constructor_witness :
  (SeedSource.size (Seq_of_flags 0x105%Z) <= length [0%Z; 0%Z])%nat
  /\ is_word32 (flags (Seq_of_flags 0x105))
  /\ Seq_of_range
       (take (SeedSource.size (Seq_of_flags 0x105))
             (param (Seq_of_flags 0x105) [0; 0] 0))
     = Seq_of_flags 0x105.
Proof.
  assert (SeedSource.size (Seq_of_flags 0x105%Z) <= length [0%Z; 0%Z])%nat
    as Hlen by (unfold SeedSource.size; simpl; lia).
  assert (is_word32 (flags (Seq_of_flags 0x105))) as Hw
    by (vm_compute; split; [discriminate|reflexivity]).
  split; [exact Hlen|]. split; [exact Hw|].
  exact (proj2 (param_then_range_constructor (Seq_of_flags 0x105) [0; 0]
                  Hlen Hw)).
Defined.

Lemma MakeMTEngine_seeds_by_generate_witness :
  length [0; 0; 0] = 3%nat
  /\ MakeMTEngine StdSeedSeq.word (list Z) 3 (fun a => a) kAll world0 []
     = ([1972501030; 1419085325; 1154149054],
        [RdDraw 1002; RdDraw 1001; RdDraw 1000; RdOpen;
         SteadyNow 8589934597; SystemNow 1099511627783]).
Proof.
  split; [reflexivity|].
  rewrite (proj1 (MakeMTEngine_seeds_by_generate StdSeedSeq.word (list Z) 3
                    (fun a => a) kAll [0; 0; 0] world0 [] (fun _ => 0)
                    eq_refl)).
  vm_compute. reflexivity.
Defined.

Lemma MakeMTEngine_without_source_is_fixed_witness :
  Z.land 0x0 kAll = 0
  /\ (MakeMTEngine StdSeedSeq.word (list Z) 4 (fun a => a) 0x0 world0 []).1
     = (MakeMTEngine StdSeedSeq.word (list Z) 4 (fun a => a) 0x0 world2
          [SystemNow 3; RdDraw 5]).1.
Proof.
  split; [reflexivity|].
  exact (proj2 (MakeMTEngine_without_source_is_fixed StdSeedSeq.word
                  (list Z) 4 (fun a => a) 0x0 world0 world2
                  [] [SystemNow 3; RdDraw 5] eq_refl)).
Defined.

Lemma fill_times_keeps_the_readings_witness :
  take (fill_times kAll world0 []).1.2 (fill_times kAll world0 []).1.1
  = take (fill_times kAll world1 []).1.2 (fill_times kAll world1 []).1.1
  /\ system_reading world0 [] = system_reading world1 [].
Proof.
  assert (take (fill_times kAll world0 []).1.2
               (fill_times kAll world0 []).1.1
          = take (fill_times kAll world1 []).1.2
                 (fill_times kAll world1 []).1.1) as Heq by reflexivity.
  split; [exact Heq|].
  apply (fill_times_keeps_the_readings kAll world0 world1 []);
    first [exact Heq | reflexivity | (vm_compute; split; congruence)].
Defined.
